(** * The installable-manifest audit (lighthouse-core/audits/installable-manifest.js)

    A shallow embedding of the audit's three static methods,
    [getManifestFailures], [getManifestChecks] and [audit], followed by the
    properties of the audit that its specification states.

    Conventions of the embedding:
    - a JavaScript array of strings is a [list string];
    - the object [checks], used as a dictionary from check id to boolean, is a
      [gmap string bool] holding its own enumerable properties (the order of
      the keys is not modelled: nothing below depends on it);
    - the promise returned by the async function [audit] is an [Outcome]:
      rejected with a reason or fulfilled with a value;
    - [ManifestValues.request] lives in computed/manifest-values.js and is a
      parameter of [audit];
    - [audit] is called as a method of the class, as the audit runner does, so
      that [this.getManifestChecks] is [InstallableManifest.getManifestChecks]. *)

From stdpp Require Import gmap strings list fin_maps.

(** ** JavaScript primitives used by the audit *)

Module Js.

(** The line feed written ['\n'] in the source. *)
Definition newline : string := String (Ascii.ascii_of_nat 10) EmptyString.

(** [Array.prototype.includes] on an array of strings: SameValueZero on two
    strings is string equality. *)
Fixpoint includes (arr : list string) (x : string) : bool :=
  match arr with
  | [] => false
  | y :: arr' => String.eqb y x || includes arr' x
  end.

(** [Array.prototype.join]: the elements separated by [sep], the empty string
    for the empty array. *)
Fixpoint join (sep : string) (arr : list string) : string :=
  match arr with
  | [] => EmptyString
  | x :: arr' =>
      match arr' with
      | [] => x
      | _ :: _ => x +:+ sep +:+ join sep arr'
      end
  end.

(** The one key of an object literal [{}] that an assignment cannot create:
    [Object.prototype] holds an accessor under it. *)
Definition proto_key : string := "__proto__".

(** [obj[k] = v] on an ordinary object whose prototype is [Object.prototype]
    and whose own properties are [o], for a primitive [v]. The assignment
    creates or overwrites the own property [k], except for [k = "__proto__"]:
    that key reaches the setter inherited from [Object.prototype], which
    ignores a value that is neither an object nor null and creates no own
    property (no exception either, also in strict mode). *)
Definition obj_set {V : Type} (k : string) (v : V) (o : gmap string V) : gmap string V :=
  if decide (k = proto_key) then o else <[k := v]> o.

(** A property definition [k: v] inside an object literal (CreateDataProperty:
    always an own property, whatever the key). *)
Definition obj_define {V : Type} (k : string) (v : V) (o : gmap string V) : gmap string V :=
  <[k := v]> o.

(** A spread element [...src] inside an object literal whose properties so
    far are [o] (CopyDataProperties): every own enumerable property of [src]
    is defined on the literal, replacing a property of the same key defined
    earlier. *)
Definition obj_spread {V : Type} (src o : gmap string V) : gmap string V :=
  map_fold (fun k v literal => obj_define k v literal) o src.

End Js.

(** ** Promises, as far as [audit] uses them *)

Inductive Outcome (E A : Type) : Type :=
| Rejected (reason : E)
| Fulfilled (value : A).
Arguments Rejected {E A} reason.
Arguments Fulfilled {E A} value.

(** [const x = await p; k x] inside an async function without [try]: a
    rejection of [p] rejects the function's promise with the same reason. *)
Definition await {E A B : Type} (p : Outcome E A) (k : A → Outcome E B) : Outcome E B :=
  match p with
  | Rejected reason => Rejected reason
  | Fulfilled value => k value
  end.

Notation "'let_await' x ':=' p 'in' k" := (await p (fun x => k))
  (at level 10, x name, p at level 100, k at level 200, only parsing).

(** ** The audit *)

Module InstallableManifest.

(** One entry of [manifestValues.allChecks]. *)
Record Check : Type := mkCheck {
  id : string;
  passing : bool;
  failureText : string;
}.

(** [LH.Artifacts.ManifestValues]. [parseFailureReason] is read only when
    [isParseFailure] holds. *)
Record ManifestValues : Type := mkManifestValues {
  isParseFailure : bool;
  parseFailureReason : string;
  allChecks : list Check;
}.

(** A field of the single object of [details.items]: the array [failures] or
    the boolean of a check. *)
Inductive ItemValue : Type :=
| FailureList (failures : list string)
| CheckFlag (passing : bool).

Record Details : Type := mkDetails {
  items : list (gmap string ItemValue);
}.

(** [LH.Audit.Product], with the fields the audit sets. *)
Record Product : Type := mkProduct {
  rawValue : bool;
  explanation : option string;
  details : Details;
}.

Definition bannerCheckIds : list string :=
  [ "hasName"; "hasShortName"; "hasStartUrl"; "hasPWADisplayValue";
    "hasIconsAtLeast192px" ].

(** Lines 44-62. *)
Definition getManifestFailures (manifestValues : ManifestValues) : list string :=
  List.map failureText
    (List.filter
       (fun check => Js.includes bannerCheckIds (id check) && negb (passing check))
       (allChecks manifestValues)).

(** Lines 68-74: [forEach] runs the assignment over [allChecks] from the
    first check to the last, starting from [{}]. *)
Definition getManifestChecks (manifestValues : ManifestValues) : gmap string bool :=
  fold_left
    (fun checks check => Js.obj_set (id check) (passing check) checks)
    (allChecks manifestValues)
    ∅.

(** Lines 83-87: the array [failures] once the parse failure has been pushed;
    the specification calls it failureMessages. *)
Definition auditFailures (manifestValues : ManifestValues) : list string :=
  let failures := getManifestFailures manifestValues in
  if isParseFailure manifestValues
  then failures ++ [parseFailureReason manifestValues]
  else failures.

(** Lines 90-93: the object literal [{failures, ...checks}]. *)
Definition detailsItem (failures : list string) (checks : gmap string bool)
  : gmap string ItemValue :=
  Js.obj_spread (CheckFlag <$> checks)
    (Js.obj_define "failures" (FailureList failures) ∅).

(** Lines 83-106: the body of [audit] after the [await]. *)
Definition auditProduct (manifestValues : ManifestValues) : Product :=
  let failures := auditFailures manifestValues in
  let checks := getManifestChecks manifestValues in
  let details := mkDetails [detailsItem failures checks] in
  if 0 <? length failures
  then mkProduct false
         (Some ("Failures: " +:+ Js.join ("," +:+ Js.newline) failures +:+ "."))
         details
  else mkProduct true None details.

Section Audit.

(** The manifest artifact and the audit context are opaque to the audit;
    [Err] is whatever [ManifestValues.request] rejects with. *)
Context {ManifestArtifact AuditContext Err : Type}.

(** [LH.Artifacts], of which the audit reads [Manifest] only. *)
Record Artifacts : Type := mkArtifacts {
  Manifest : ManifestArtifact;
}.

(** [ManifestValues.request], from computed/manifest-values.js. *)
Variable request : ManifestArtifact → AuditContext → Outcome Err ManifestValues.

(** Lines 81-107. *)
Definition audit (artifacts : Artifacts) (context : AuditContext)
  : Outcome Err Product :=
  let_await manifestValues := request (Manifest artifacts) context in
  Fulfilled (auditProduct manifestValues).

End Audit.

Arguments Artifacts : clear implicits.
Arguments mkArtifacts {ManifestArtifact} Manifest.

(** [LH.Audit.Meta], with the fields the audit sets. *)
Module Meta.

Record t : Type := mk {
  id : string;
  title : string;
  failureTitle : string;
  description : string;
  requiredArtifacts : list string;
}.

End Meta.

(** Lines 28-38: the static getter [meta]. *)
Definition meta : Meta.t :=
  Meta.mk "installable-manifest"
    "Web app manifest meets the installability requirements"
    "Web app manifest does not meet the installability requirements"
    ("Browsers can proactively prompt users to add your app to their homescreen, "
     +:+ "which can lead to higher engagement. "
     +:+ "[Learn more](https://developers.google.com/web/tools/lighthouse/audits/install-prompt).")
    ["URL"; "Manifest"].

End InstallableManifest.

Import InstallableManifest.

(** ** Vocabulary of the specification *)

(** RequiredCheckSet: the five check ids that gate installability. *)
Definition RequiredCheckSet : gset string :=
  {[ "hasName"; "hasShortName"; "hasStartUrl"; "hasPWADisplayValue";
     "hasIconsAtLeast192px" ]}.

(** selectFailures as the specification words it, check by check from the
    front of the checklist: a check whose id is in RequiredCheckSet and whose
    passing is false is retained and gives its failureText; any other check
    gives nothing; the retained texts keep the checklist's order. *)
Inductive selectFailures : list Check → list string → Prop :=
| select_nil :
    selectFailures [] []
| select_retain check checks out :
    id check ∈ RequiredCheckSet →
    passing check = false →
    selectFailures checks out →
    selectFailures (check :: checks) (failureText check :: out)
| select_skip check checks out :
    ¬ (id check ∈ RequiredCheckSet ∧ passing check = false) →
    selectFailures checks out →
    selectFailures (check :: checks) out.

(** The checklist [manifestValues] with [allChecks] replaced. *)
Definition withAllChecks (manifestValues : ManifestValues) (checks : list Check)
  : ManifestValues :=
  mkManifestValues (isParseFailure manifestValues)
    (parseFailureReason manifestValues) checks.

(** The checks of a checklist that carry the id [k], in checklist order. *)
Definition checksWithId (k : string) (checks : list Check) : list Check :=
  filter (λ check, id check = k) checks.

(** ** Checklists used as examples *)

Definition passingCheck (k : string) : Check := mkCheck k true "".

(** Scenario A: the five required checks, all passing. *)
Definition scenarioA : ManifestValues :=
  mkManifestValues false ""
    [ passingCheck "hasName"; passingCheck "hasShortName";
      passingCheck "hasStartUrl"; passingCheck "hasPWADisplayValue";
      passingCheck "hasIconsAtLeast192px" ].

(** Scenario B: as scenario A, with a failing hasShortName. *)
Definition scenarioB : ManifestValues :=
  mkManifestValues false ""
    [ passingCheck "hasName";
      mkCheck "hasShortName" false "Manifest does not contain a 'short_name' field";
      passingCheck "hasStartUrl"; passingCheck "hasPWADisplayValue";
      passingCheck "hasIconsAtLeast192px" ].

(** Scenario C: no check at all and a parse failure. *)
Definition scenarioC : ManifestValues :=
  mkManifestValues true "Failed to fetch manifest" [].

(** Scenario D: two checks share the id hasName. *)
Definition scenarioD : ManifestValues :=
  mkManifestValues false ""
    [ passingCheck "hasName"; mkCheck "hasName" false "Manifest has no name" ].

(** No check and no parse failure: none of the required checks was evaluated. *)
Definition emptyChecklist : ManifestValues := mkManifestValues false "" [].

(** Two failing required checks in the reverse of the order of [bannerCheckIds],
    around a failing check that is not required. *)
Definition reversedChecklist : ManifestValues :=
  mkManifestValues false ""
    [ mkCheck "hasIconsAtLeast192px" false "no icon";
      mkCheck "hasThemeColor" false "no theme color";
      mkCheck "hasName" false "no name" ].

(** A check whose id is ["__proto__"]. *)
Definition protoChecklist : ManifestValues :=
  mkManifestValues false "" [ mkCheck "__proto__" false "no prototype" ].

(** A failing check that is not required, with the failure text of a failing
    required check. *)
Definition sameTextChecklist : ManifestValues :=
  mkManifestValues false ""
    [ mkCheck "hasName" false "Manifest is incomplete";
      mkCheck "hasThemeColor" false "Manifest is incomplete" ].

(** A check whose id is ["failures"]. *)
Definition failuresIdChecklist : ManifestValues :=
  mkManifestValues false ""
    [ mkCheck "hasName" false "no name"; mkCheck "failures" true "" ].

(** [ManifestValues.request] for a test: it ignores the artifact and fulfils
    with the given checklist. *)
Definition requestFulfilling (manifestValues : ManifestValues)
  : unit → unit → Outcome string ManifestValues :=
  fun _ _ => Fulfilled manifestValues.

(** [ManifestValues.request] for a test: it always rejects with the given
    reason. *)
Definition requestRejecting (reason : string)
  : unit → unit → Outcome string ManifestValues :=
  fun _ _ => Rejected reason.


(** Scenario B with other texts where the audit does not look: the failure
    text of a passing check, that of a failing check that is not a banner
    check, and the parse failure reason of a checklist that is no parse
    failure. *)
Definition scenarioB' : ManifestValues :=
  mkManifestValues false "never read"
    [ mkCheck "hasName" true "never read either";
      mkCheck "hasShortName" false "Manifest does not contain a 'short_name' field";
      passingCheck "hasStartUrl"; passingCheck "hasPWADisplayValue";
      passingCheck "hasIconsAtLeast192px" ].

(** ** What the audit reads of a checklist *)

(** Two checks with the same id and the same passing, and with the same
    failureText when the callback of [filter] in [getManifestFailures] retains
    them. *)
Definition sameForAudit (check1 check2 : Check) : Prop :=
  id check1 = id check2
  ∧ passing check1 = passing check2
  ∧ (Js.includes bannerCheckIds (id check1) && negb (passing check1) = true →
     failureText check1 = failureText check2).

(** The [forEach] of [getManifestChecks], started from any object. *)
Definition recordChecks (checks : list Check) (start : gmap string bool)
  : gmap string bool :=
  fold_left (fun acc check => Js.obj_set (id check) (passing check) acc)
    checks start.

(** ** Auxiliary lemmas *)

Lemma includes_elem_of (arr : list string) (x : string) :
  Js.includes arr x = true ↔ x ∈ arr.
Proof.
  induction arr as [|y arr IH]; simpl.
  - split; [discriminate | intros H; inversion H].
  - rewrite orb_true_iff, String.eqb_eq, IH, elem_of_cons.
    split; (intros [Heq | Hin]; [left; congruence | by right]).
Qed.

Lemma includes_bannerCheckIds (x : string) :
  Js.includes bannerCheckIds x = true ↔ x ∈ RequiredCheckSet.
Proof.
  rewrite includes_elem_of. unfold bannerCheckIds, RequiredCheckSet.
  rewrite !elem_of_cons, elem_of_nil, !elem_of_union, !elem_of_singleton.
  tauto.
Qed.

(** The test of the [filter] callback of [getManifestFailures]. *)
Lemma retained_iff (check : Check) :
  Js.includes bannerCheckIds (id check) && negb (passing check) = true
  ↔ id check ∈ RequiredCheckSet ∧ passing check = false.
Proof.
  rewrite andb_true_iff, includes_bannerCheckIds, negb_true_iff. reflexivity.
Qed.

Lemma selectFailures_filter (checks : list Check) :
  selectFailures checks
    (List.map failureText
       (List.filter
          (fun check => Js.includes bannerCheckIds (id check) && negb (passing check))
          checks)).
Proof.
  induction checks as [|c checks IH]; [constructor|].
  cbn [List.filter].
  destruct (Js.includes bannerCheckIds (id c) && negb (passing c)) eqn:Hc.
  - apply retained_iff in Hc as [Hreq Hfail]. cbn [List.map].
    by apply select_retain.
  - apply select_skip; [|done].
    intros Hr. apply retained_iff in Hr. congruence.
Qed.

Lemma selectFailures_functional (checks : list Check) (out1 out2 : list string) :
  selectFailures checks out1 → selectFailures checks out2 → out1 = out2.
Proof.
  intros H1. revert out2.
  induction H1 as [|c checks out Hreq Hfail _ IH|c checks out Hno _ IH];
    intros out2 H2; inversion H2; subst; try done.
  - f_equal. by apply IH.
  - exfalso. tauto.
  - exfalso. tauto.
  - by apply IH.
Qed.

Lemma elem_of_getManifestFailures (mv : ManifestValues) (msg : string) :
  msg ∈ getManifestFailures mv
  ↔ ∃ check, check ∈ allChecks mv ∧ id check ∈ RequiredCheckSet
             ∧ passing check = false ∧ failureText check = msg.
Proof.
  unfold getManifestFailures.
  rewrite list_elem_of_In, in_map_iff. split.
  - intros (c & Htext & Hin). apply filter_In in Hin as [Hin Hc].
    apply retained_iff in Hc as [? ?]. exists c.
    by rewrite list_elem_of_In.
  - intros (c & Hin & Hreq & Hfail & Htext). exists c. split; [done|].
    apply filter_In. split; [by apply list_elem_of_In|].
    by apply retained_iff.
Qed.

Lemma getManifestFailures_nil_iff (mv : ManifestValues) :
  getManifestFailures mv = []
  ↔ ∀ check, check ∈ allChecks mv → id check ∈ RequiredCheckSet →
             passing check = true.
Proof.
  split.
  - intros Hnil c Hin Hreq. destruct (passing c) eqn:Hp; [done|].
    assert (failureText c ∈ getManifestFailures mv) as Hmsg
      by (apply elem_of_getManifestFailures; eauto).
    rewrite Hnil in Hmsg. inversion Hmsg.
  - intros Hall. destruct (getManifestFailures mv) as [|msg rest] eqn:Hf; [done|].
    assert (msg ∈ getManifestFailures mv) as Hmsg by (rewrite Hf; left).
    apply elem_of_getManifestFailures in Hmsg as (c & Hin & Hreq & Hfail & _).
    specialize (Hall c Hin Hreq). congruence.
Qed.

Lemma rawValue_auditProduct (mv : ManifestValues) :
  rawValue (auditProduct mv) = negb (0 <? length (auditFailures mv)).
Proof. unfold auditProduct. by destruct (0 <? length (auditFailures mv)). Qed.

Lemma rawValue_true_iff (mv : ManifestValues) :
  rawValue (auditProduct mv) = true ↔ auditFailures mv = [].
Proof.
  rewrite rawValue_auditProduct.
  destruct (auditFailures mv) as [|msg rest]; simpl; split; done.
Qed.

(** The dictionary built by the [forEach] of [getManifestChecks], read at one
    key: the last check carrying that key decides, and ["__proto__"] is never
    a key. *)
Lemma checks_fold_lookup (checks : list Check) (k : string) :
  fold_left (fun acc check => Js.obj_set (id check) (passing check) acc) checks ∅ !! k
  = if decide (k = Js.proto_key) then None
    else passing <$> last (checksWithId k checks).
Proof.
  unfold checksWithId.
  induction checks as [|c checks IH] using rev_ind.
  - simpl. rewrite lookup_empty. by case_decide.
  - rewrite fold_left_app, filter_app. cbn [fold_left]. unfold Js.obj_set at 1.
    destruct (decide (id c = Js.proto_key)) as [Hproto|Hproto].
    + rewrite IH. case_decide as Hk; [done|].
      rewrite filter_cons_False, filter_nil, app_nil_r by congruence. done.
    + destruct (decide (id c = k)) as [Heq|Hne].
      * rewrite filter_cons_True, filter_nil by done.
        rewrite last_snoc. subst k. rewrite lookup_insert_eq.
        by rewrite decide_False by done.
      * rewrite lookup_insert_ne by done. rewrite IH.
        rewrite filter_cons_False, filter_nil, app_nil_r by done. done.
Qed.

Lemma getManifestChecks_lookup (mv : ManifestValues) (k : string) :
  getManifestChecks mv !! k
  = if decide (k = Js.proto_key) then None
    else passing <$> last (checksWithId k (allChecks mv)).
Proof. apply checks_fold_lookup. Qed.

Lemma last_checksWithId_Some (k : string) (checks : list Check) :
  k ∈ id <$> checks ↔ is_Some (last (checksWithId k checks)).
Proof.
  unfold checksWithId. rewrite list_elem_of_fmap. split.
  - intros (c & -> & Hin).
    assert (c ∈ filter (λ check, id check = id c) checks) as Hc
      by (by apply list_elem_of_filter).
    destruct (filter (λ check, id check = id c) checks) as [|c0 l] eqn:Hf
      using rev_ind; [inversion Hc|].
    rewrite last_snoc. eauto.
  - intros [c Hlast]. apply last_Some in Hlast as [l' Hl'].
    assert (c ∈ filter (λ check, id check = k) checks) as Hc
      by (rewrite Hl'; apply elem_of_app; right; left).
    apply list_elem_of_filter in Hc as [Hid Hin]. eauto.
Qed.

Lemma last_checksWithId_elem_of (k : string) (checks : list Check) (check : Check) :
  last (checksWithId k checks) = Some check → id check = k ∧ check ∈ checks.
Proof.
  unfold checksWithId. intros Hlast. apply last_Some in Hlast as [l' Hl'].
  assert (check ∈ filter (λ c, id c = k) checks) as Hc
    by (rewrite Hl'; apply elem_of_app; right; left).
  by apply list_elem_of_filter in Hc.
Qed.

Lemma elem_of_dom_getManifestChecks (mv : ManifestValues) (k : string) :
  k ∈ dom (getManifestChecks mv) ↔ k ∈ id <$> allChecks mv ∧ k ≠ Js.proto_key.
Proof.
  rewrite elem_of_dom, getManifestChecks_lookup, last_checksWithId_Some.
  case_decide as Hk.
  - split; [intros [? ?]; done | intros [_ ?]; done].
  - rewrite fmap_is_Some. tauto.
Qed.

(** A spread copies distinct keys, so the order of the copies does not matter:
    the literal ends as the union that prefers the properties of [src]. *)
Lemma obj_spread_union {V : Type} (src o : gmap string V) :
  Js.obj_spread src o = src ∪ o.
Proof.
  unfold Js.obj_spread, Js.obj_define.
  apply (map_fold_weak_ind (λ r m, r = m ∪ o)).
  - by rewrite (left_id_L ∅ (∪)).
  - intros k v m r _ ->. by rewrite insert_union_l.
Qed.

(** The object literal [{failures, ...checks}] read at one key. *)
Lemma detailsItem_lookup (failures : list string) (checks : gmap string bool)
      (k : string) :
  detailsItem failures checks !! k
  = match checks !! k with
    | Some b => Some (CheckFlag b)
    | None => if decide (k = "failures") then Some (FailureList failures) else None
    end.
Proof.
  unfold detailsItem. rewrite obj_spread_union. unfold Js.obj_define.
  rewrite lookup_union, lookup_fmap, lookup_insert, lookup_empty.
  destruct (checks !! k) as [b|]; simpl.
  - by case_decide.
  - rewrite (left_id None _). by repeat case_decide.
Qed.

Lemma auditFailures_elem_of (mv : ManifestValues) (msg : string) :
  msg ∈ auditFailures mv
  ↔ msg ∈ getManifestFailures mv
    ∨ (isParseFailure mv = true ∧ msg = parseFailureReason mv).
Proof.
  unfold auditFailures. destruct (isParseFailure mv).
  - rewrite elem_of_app, list_elem_of_singleton. intuition.
  - intuition congruence.
Qed.

(** A check that is not required can be taken out of the checklist without
    changing the result of [getManifestFailures]. *)
Lemma getManifestFailures_without (mv : ManifestValues)
      (before after : list Check) (check : Check) :
  allChecks mv = before ++ check :: after →
  id check ∉ RequiredCheckSet →
  getManifestFailures mv = getManifestFailures (withAllChecks mv (before ++ after)).
Proof.
  intros Hall Hreq. unfold getManifestFailures, withAllChecks.
  cbn [allChecks]. rewrite Hall, !List.filter_app. cbn [List.filter].
  destruct (Js.includes bannerCheckIds (id check) && negb (passing check)) eqn:Hc;
    [|done].
  apply retained_iff in Hc as [? _]. done.
Qed.


Lemma auditFailures_nil (mv : ManifestValues) :
  (∀ check, check ∈ allChecks mv → id check ∈ RequiredCheckSet →
            passing check = true) →
  isParseFailure mv = false →
  auditFailures mv = [].
Proof.
  intros Hall Hparse. unfold auditFailures. rewrite Hparse.
  by apply getManifestFailures_nil_iff.
Qed.

(** ** Properties of the audit *)

(** C1. For every checklist, [getManifestFailures] (selectFailures) returns
    exactly the failureText of each check whose id is in RequiredCheckSet and
    whose passing is false, in the checklist's own order: its result is the one
    and only sequence that the specification's selection allows. It is a total
    function: there is no checklist on which it fails. *)
Theorem getManifestFailures_selects (mv : ManifestValues) (out : list string) :
  selectFailures (allChecks mv) out ↔ out = getManifestFailures mv.
Proof.
  split.
  - intros Hsel. eapply selectFailures_functional; [exact Hsel|].
    apply selectFailures_filter.
  - intros ->. apply selectFailures_filter.
Qed.

(** The order is the checklist's, not that of [bannerCheckIds]. *)
Example getManifestFailures_reversedChecklist :
  getManifestFailures reversedChecklist = ["no icon"; "no name"].
Proof. reflexivity. Qed.

Example getManifestFailures_scenarioB :
  getManifestFailures scenarioB = ["Manifest does not contain a 'short_name' field"].
Proof. reflexivity. Qed.

(** C2. For every checklist, the audit passes ([rawValue] is true) if and only
    if the sequence of failures, parse failure included, is empty;
    equivalently the failures are non-empty iff the audit does not pass. *)
Theorem passed_iff_no_failures (mv : ManifestValues) :
  (rawValue (auditProduct mv) = true ↔ auditFailures mv = [])
  ∧ (auditFailures mv ≠ [] ↔ rawValue (auditProduct mv) = false).
Proof.
  split; [apply rawValue_true_iff|].
  rewrite <- rawValue_true_iff.
  destruct (rawValue (auditProduct mv)); split; congruence.
Qed.



(** [getManifestChecks] on ids that are arbitrary strings: the key set is the
    checklist's id set without the id ["__proto__"]; under every other id
    stands the passing value of the last check of the checklist that carries
    the id, and a check whose id occurs in no later check is recorded with its
    own passing value. *)
Lemma getManifestChecks_records_last (mv : ManifestValues) :
  dom (getManifestChecks mv)
  = list_to_set (id <$> allChecks mv) ∖ {[ "__proto__" ]}
  ∧ (∀ k, getManifestChecks mv !! k
          = if decide (k = "__proto__") then None
            else passing <$> last (checksWithId k (allChecks mv)))
  ∧ (∀ before check after,
       allChecks mv = before ++ check :: after →
       id check ∉ id <$> after →
       id check ≠ "__proto__" →
       getManifestChecks mv !! id check = Some (passing check)).
Proof.
  split; [|split].
  - apply set_eq. intros k.
    rewrite elem_of_dom_getManifestChecks, elem_of_difference,
      elem_of_list_to_set, elem_of_singleton.
    reflexivity.
  - intros k. apply getManifestChecks_lookup.
  - intros before c after Hall Hlater Hproto.
    rewrite getManifestChecks_lookup, Hall. unfold checksWithId.
    rewrite decide_False by done.
    rewrite filter_app, filter_cons_True by done.
    assert (filter (λ check, id check = id c) after = []) as ->.
    { destruct (filter (λ check, id check = id c) after) as [|c' rest] eqn:Hf;
        [done|].
      assert (c' ∈ filter (λ check, id check = id c) after) as Hin
        by (rewrite Hf; left).
      apply list_elem_of_filter in Hin as [Hid Hin].
      exfalso. apply Hlater. rewrite <- Hid. by apply list_elem_of_fmap_2. }
    rewrite last_snoc. done.
Qed.

(** C4. For every checklist whose ids are check ids, that is of the type
    [LH.Artifacts.ManifestValueCheckID], which has no id ["__proto__"],
    [getManifestChecks] (summarizeChecks) returns a dictionary whose key set
    is the checklist's id set: it records every check, required or not, and
    under an id stands the passing value of the last check of the checklist
    that carries the id, so a later entry overwrites an earlier one, and a
    check whose id occurs in no later check is recorded with its own passing
    value. It is a total function: there is no checklist on which it fails. *)
Theorem getManifestChecks_records_every_check (mv : ManifestValues) :
  "__proto__" ∉ id <$> allChecks mv →
  dom (getManifestChecks mv) = list_to_set (id <$> allChecks mv)
  ∧ (∀ k, getManifestChecks mv !! k
          = passing <$> last (checksWithId k (allChecks mv)))
  ∧ (∀ check, check ∈ allChecks mv →
              is_Some (getManifestChecks mv !! id check))
  ∧ (∀ before check after,
       allChecks mv = before ++ check :: after →
       id check ∉ id <$> after →
       getManifestChecks mv !! id check = Some (passing check)).
Proof.
  intros Htyped.
  destruct (getManifestChecks_records_last mv) as (Hdom & Hlookup & Hlast).
  assert (∀ check, check ∈ allChecks mv → id check ≠ "__proto__") as Hne.
  { intros c Hin Hid. apply Htyped. rewrite <- Hid.
    by apply list_elem_of_fmap_2. }
  split; [|split; [|split]].
  - rewrite Hdom. apply set_eq. intros k.
    rewrite elem_of_difference, elem_of_list_to_set, elem_of_singleton.
    split; [by intros [? _] | intros Hin; split; [done|]].
    by intros ->.
  - intros k. rewrite Hlookup. case_decide as Hk; [|done]. subst k.
    destruct (last (checksWithId "__proto__" (allChecks mv))) as [c|] eqn:Hc;
      [|done].
    exfalso. apply Htyped, last_checksWithId_Some. eauto.
  - intros c Hin. apply elem_of_dom. rewrite Hdom.
    rewrite elem_of_difference, elem_of_list_to_set, elem_of_singleton.
    split; [by apply list_elem_of_fmap_2 | by apply Hne].
  - intros before c after Hall Hlater. apply (Hlast before c after); [done..|].
    apply Hne. rewrite Hall. apply elem_of_app. right. left.
Qed.

Lemma getManifestChecks_records_every_check_witness :
  ("__proto__" ∉ id <$> allChecks scenarioD)
  ∧ dom (getManifestChecks scenarioD) = list_to_set (id <$> allChecks scenarioD)
  ∧ getManifestChecks scenarioD !! "hasName" = Some false.
Proof.
  assert ("__proto__" ∉ id <$> allChecks scenarioD) as Htyped.
  { cbn. intros Hin.
    repeat (apply elem_of_cons in Hin as [Heq | Hin]; [discriminate Heq|]).
    inversion Hin. }
  destruct (getManifestChecks_records_every_check scenarioD Htyped)
    as (Hdom & Hlookup & _).
  split; [exact Htyped|]. split; [exact Hdom|].
  rewrite Hlookup. reflexivity.
Defined.

(** An id that is no check id: assigning a boolean under ["__proto__"] leaves
    no key in the object. *)
Example getManifestChecks_protoChecklist :
  getManifestChecks protoChecklist = ∅.
Proof. reflexivity. Qed.

(** Scenario D: the later of two entries with the same id wins. *)
Example getManifestChecks_scenarioD :
  getManifestChecks scenarioD !! "hasName" = Some false.
Proof. reflexivity. Qed.

(** C5. For every checklist and every check in it whose id (a check id, so
    not ["__proto__"]) is not in RequiredCheckSet, the check contributes
    nothing to the failure messages, even when its passing is false: the
    messages are those of the checklist without that check, so its failureText
    is among them only as the text of a failing required check or as the parse
    failure reason; and its id is a key of the check results. *)
Theorem nonrequired_check_contributes_nothing (mv : ManifestValues)
        (before after : list Check) (check : Check) :
  allChecks mv = before ++ check :: after →
  id check ∉ RequiredCheckSet →
  id check ≠ "__proto__" →
  auditFailures mv = auditFailures (withAllChecks mv (before ++ after))
  ∧ (failureText check ∈ auditFailures mv →
     (∃ other, other ∈ before ++ after
               ∧ id other ∈ RequiredCheckSet ∧ passing other = false
               ∧ failureText other = failureText check)
     ∨ (isParseFailure mv = true ∧ failureText check = parseFailureReason mv))
  ∧ id check ∈ dom (getManifestChecks mv).
Proof.
  intros Hall Hreq Hproto.
  assert (auditFailures mv = auditFailures (withAllChecks mv (before ++ after)))
    as Hsame.
  { unfold auditFailures.
    by rewrite (getManifestFailures_without mv before after check Hall Hreq). }
  split; [done|]. split.
  - rewrite Hsame, auditFailures_elem_of, elem_of_getManifestFailures.
    cbn [allChecks isParseFailure parseFailureReason withAllChecks].
    intros [(other & Hin & Hr & Hp & Ht) | Hparse]; [left; eauto | by right].
  - apply elem_of_dom_getManifestChecks. split; [|done].
    rewrite Hall. apply list_elem_of_fmap_2, elem_of_app. right. left.
Qed.

Lemma nonrequired_check_contributes_nothing_witness :
  allChecks reversedChecklist
  = [mkCheck "hasIconsAtLeast192px" false "no icon"]
    ++ (mkCheck "hasThemeColor" false "no theme color")
    :: [mkCheck "hasName" false "no name"]
  ∧ ("hasThemeColor" ∉ RequiredCheckSet)
  ∧ "hasThemeColor" ≠ "__proto__"
  ∧ auditFailures reversedChecklist = ["no icon"; "no name"]
  ∧ "hasThemeColor" ∈ dom (getManifestChecks reversedChecklist).
Proof.
  assert ("hasThemeColor" ∉ RequiredCheckSet) as Hreq.
  { intros Hin. apply includes_bannerCheckIds in Hin. discriminate Hin. }
  assert ("hasThemeColor" ≠ "__proto__") as Hproto by discriminate.
  destruct (nonrequired_check_contributes_nothing reversedChecklist
              [mkCheck "hasIconsAtLeast192px" false "no icon"]
              [mkCheck "hasName" false "no name"]
              (mkCheck "hasThemeColor" false "no theme color")
              eq_refl Hreq Hproto) as (Hsame & _ & Hkey).
  split; [reflexivity|]. split; [exact Hreq|]. split; [exact Hproto|].
  split; [rewrite Hsame; reflexivity | exact Hkey].
Defined.

(** A failing check that is not required and has the failure text of a
    failing required check: the one message is that of the required check,
    and it is there without the other check too. *)
Example auditFailures_sameTextChecklist :
  auditFailures sameTextChecklist = ["Manifest is incomplete"]
  ∧ auditFailures
      (withAllChecks sameTextChecklist
         [mkCheck "hasName" false "Manifest is incomplete"])
    = ["Manifest is incomplete"].
Proof. split; reflexivity. Qed.

(** C6. For every checklist in which every check whose id is in
    RequiredCheckSet passes and which is no parse failure, the audit passes
    with an empty sequence of failure messages. *)
Theorem all_required_passing_passes (mv : ManifestValues) :
  (∀ check, check ∈ allChecks mv → id check ∈ RequiredCheckSet →
            passing check = true) →
  isParseFailure mv = false →
  rawValue (auditProduct mv) = true ∧ auditFailures mv = [].
Proof.
  intros Hall Hparse.
  assert (auditFailures mv = []) as Hnone by (by apply auditFailures_nil).
  split; [by apply rawValue_true_iff | done].
Qed.

Lemma all_required_passing_passes_witness :
  (∀ check, check ∈ allChecks scenarioA → id check ∈ RequiredCheckSet →
            passing check = true)
  ∧ isParseFailure scenarioA = false
  ∧ rawValue (auditProduct scenarioA) = true
  ∧ auditFailures scenarioA = [].
Proof.
  assert (∀ check, check ∈ allChecks scenarioA → id check ∈ RequiredCheckSet →
                   passing check = true) as Hall.
  { intros c Hin _. cbn in Hin.
    repeat (apply elem_of_cons in Hin as [-> | Hin]; [reflexivity|]).
    inversion Hin. }
  split; [exact Hall|]. split; [reflexivity|].
  apply (all_required_passing_passes scenarioA Hall). reflexivity.
Defined.

(** C7. For every checklist, the product of the audit has an explanation
    only when its [rawValue] is false, and the explanation is then
    ["Failures: "], the failure messages joined with a comma and a line feed,
    and a full stop. *)
Theorem explanation_format (mv : ManifestValues) :
  explanation (auditProduct mv)
  = if rawValue (auditProduct mv) then None
    else Some ("Failures: "
               +:+ Js.join ("," +:+ Js.newline) (auditFailures mv)
               +:+ ".").
Proof. unfold auditProduct. by destruct (0 <? length (auditFailures mv)). Qed.

Example explanation_scenarioB :
  explanation (auditProduct scenarioB)
  = Some "Failures: Manifest does not contain a 'short_name' field.".
Proof. reflexivity. Qed.

Example explanation_reversedChecklist :
  explanation (auditProduct reversedChecklist)
  = Some "Failures: no icon,
no name.".
Proof. reflexivity. Qed.

Example explanation_scenarioA : explanation (auditProduct scenarioA) = None.
Proof. reflexivity. Qed.

(** C8. Whatever [ManifestValues.request] rejects with, [audit] rejects with
    the same reason, unchanged, and gives no product; and [audit] rejects in
    no other case, so that it raises no error of its own. *)
Theorem audit_propagates_rejection {M C E : Type}
        (request : M → C → Outcome E ManifestValues)
        (artifacts : Artifacts M) (context : C) (reason : E) :
  audit request artifacts context = Rejected reason
  ↔ request (Manifest artifacts) context = Rejected reason.
Proof.
  unfold audit, await.
  destruct (request (Manifest artifacts) context) as [reason'|mv].
  - split; intros Heq; injection Heq as ->; reflexivity.
  - split; discriminate.
Qed.

Example audit_requestRejecting :
  audit (requestRejecting "Manifest artifact is malformed") (mkArtifacts tt) tt
  = Rejected "Manifest artifact is malformed".
Proof. reflexivity. Qed.

(** C9. For every checklist from which a required id is absent, the absent
    check is not among the check results and contributes no failure message:
    every failure message is the failureText of a failing required check that
    is present in the checklist, or the parse failure reason. Hence, when the
    required checks that are present pass and there is no parse failure, the
    audit passes although a required check was never evaluated. *)
Theorem absent_required_check_does_not_block (mv : ManifestValues) (k : string) :
  k ∈ RequiredCheckSet →
  k ∉ id <$> allChecks mv →
  getManifestChecks mv !! k = None
  ∧ (∀ msg, msg ∈ auditFailures mv →
       (∃ check, check ∈ allChecks mv ∧ id check ≠ k
                 ∧ id check ∈ RequiredCheckSet ∧ passing check = false
                 ∧ failureText check = msg)
       ∨ (isParseFailure mv = true ∧ msg = parseFailureReason mv))
  ∧ ((∀ check, check ∈ allChecks mv → id check ∈ RequiredCheckSet →
               passing check = true) →
     isParseFailure mv = false →
     rawValue (auditProduct mv) = true).
Proof.
  intros Hreq Habsent. split; [|split].
  - apply not_elem_of_dom. rewrite elem_of_dom_getManifestChecks. tauto.
  - intros msg Hmsg. apply auditFailures_elem_of in Hmsg as [Hmsg | Hparse];
      [left | by right].
    apply elem_of_getManifestFailures in Hmsg as (c & Hin & Hr & Hp & Ht).
    exists c. split; [done|]. split; [|done].
    intros <-. apply Habsent. by apply list_elem_of_fmap_2.
  - intros Hall Hparse. by apply rawValue_true_iff, auditFailures_nil.
Qed.

Lemma absent_required_check_does_not_block_witness :
  "hasName" ∈ RequiredCheckSet
  ∧ ("hasName" ∉ id <$> allChecks emptyChecklist)
  ∧ getManifestChecks emptyChecklist !! "hasName" = None
  ∧ rawValue (auditProduct emptyChecklist) = true.
Proof.
  assert ("hasName" ∈ RequiredCheckSet) as Hreq
    by (by apply includes_bannerCheckIds).
  assert ("hasName" ∉ id <$> allChecks emptyChecklist) as Habsent
    by (cbn; apply not_elem_of_nil).
  destruct (absent_required_check_does_not_block emptyChecklist "hasName"
              Hreq Habsent) as (Hnone & _ & Hpass).
  split; [exact Hreq|]. split; [exact Habsent|]. split; [exact Hnone|].
  apply Hpass; [|reflexivity].
  intros c Hin. cbn in Hin. inversion Hin.
Defined.

(** C10. In [details.items[0]] the keys of the check results are merged
    after the field [failures]: every key of the check results holds its
    boolean, and [failures] holds the failure messages only when no key of
    the check results is ["failures"]. So for a checklist with a check whose
    id is ["failures"], the field holds the passing value of that check (of
    the last one, when several carry the id) in place of the failure messages;
    for a checklist whose ids avoid ["failures"], it holds the whole sequence
    of failure messages. *)
Theorem details_failures_field (mv : ManifestValues) :
  items (details (auditProduct mv))
  = [detailsItem (auditFailures mv) (getManifestChecks mv)]
  ∧ (∀ k, detailsItem (auditFailures mv) (getManifestChecks mv) !! k
          = match getManifestChecks mv !! k with
            | Some b => Some (CheckFlag b)
            | None => if decide (k = "failures")
                      then Some (FailureList (auditFailures mv)) else None
            end)
  ∧ ("failures" ∈ id <$> allChecks mv →
     ∃ check, last (checksWithId "failures" (allChecks mv)) = Some check
              ∧ check ∈ allChecks mv ∧ id check = "failures"
              ∧ detailsItem (auditFailures mv) (getManifestChecks mv) !! "failures"
                = Some (CheckFlag (passing check)))
  ∧ ("failures" ∉ id <$> allChecks mv →
     detailsItem (auditFailures mv) (getManifestChecks mv) !! "failures"
     = Some (FailureList (auditFailures mv))).
Proof.
  assert (detailsItem (auditFailures mv) (getManifestChecks mv) !! "failures"
          = match last (checksWithId "failures" (allChecks mv)) with
            | Some check => Some (CheckFlag (passing check))
            | None => Some (FailureList (auditFailures mv))
            end) as Hfield.
  { rewrite detailsItem_lookup, getManifestChecks_lookup.
    rewrite decide_False by discriminate.
    by destruct (last (checksWithId "failures" (allChecks mv))). }
  split; [|split; [|split]].
  - unfold auditProduct. by destruct (0 <? length (auditFailures mv)).
  - intros k. apply detailsItem_lookup.
  - intros Hin. apply last_checksWithId_Some in Hin as [c Hlast].
    exists c. rewrite Hfield, Hlast.
    destruct (last_checksWithId_elem_of _ _ _ Hlast) as [Hid Hc]. done.
  - intros Hnot. rewrite Hfield.
    destruct (last (checksWithId "failures" (allChecks mv))) as [c|] eqn:Hlast;
      [|done].
    exfalso. apply Hnot, last_checksWithId_Some. eauto.
Qed.

Example details_failuresIdChecklist :
  auditFailures failuresIdChecklist = ["no name"]
  ∧ detailsItem (auditFailures failuresIdChecklist)
      (getManifestChecks failuresIdChecklist) !! "failures"
    = Some (CheckFlag true).
Proof. split; reflexivity. Qed.

Example details_scenarioB :
  detailsItem (auditFailures scenarioB) (getManifestChecks scenarioB) !! "failures"
  = Some (FailureList ["Manifest does not contain a 'short_name' field"]).
Proof. reflexivity. Qed.

(** ** The scenarios of the specification, run through the audit *)

Example audit_scenarioA :
  audit (requestFulfilling scenarioA) (mkArtifacts tt) tt
  = Fulfilled (mkProduct true None
      (mkDetails [detailsItem [] (getManifestChecks scenarioA)])).
Proof. reflexivity. Qed.

Example audit_scenarioB :
  audit (requestFulfilling scenarioB) (mkArtifacts tt) tt
  = Fulfilled (mkProduct false
      (Some "Failures: Manifest does not contain a 'short_name' field.")
      (mkDetails [detailsItem ["Manifest does not contain a 'short_name' field"]
                    (getManifestChecks scenarioB)])).
Proof. reflexivity. Qed.

Example audit_scenarioC :
  auditFailures scenarioC = ["Failed to fetch manifest"]
  ∧ rawValue (auditProduct scenarioC) = false
  ∧ getManifestChecks scenarioC = ∅.
Proof. repeat split. Qed.

Example checks_scenarioA :
  getManifestChecks scenarioA
  = {[ "hasName" := true; "hasShortName" := true; "hasStartUrl" := true;
       "hasPWADisplayValue" := true; "hasIconsAtLeast192px" := true ]}.
Proof. reflexivity. Qed.

(** ** Further properties of the audit *)

Lemma bannerCheckIds_RequiredCheckSet (k : string) :
  k ∈ bannerCheckIds ↔ k ∈ RequiredCheckSet.
Proof. by rewrite <- includes_elem_of, includes_bannerCheckIds. Qed.

Lemma getManifestChecks_recordChecks (mv : ManifestValues) :
  getManifestChecks mv = recordChecks (allChecks mv) ∅.
Proof. reflexivity. Qed.

(** Recording checks into an object that already has properties keeps the
    properties that no check overwrites. *)
Lemma recordChecks_union (checks : list Check) (start : gmap string bool) :
  recordChecks checks start = recordChecks checks ∅ ∪ start.
Proof.
  unfold recordChecks. revert start.
  induction checks as [|c checks IH]; intros start; cbn [fold_left].
  - by rewrite (left_id_L ∅ (∪)).
  - rewrite IH, (IH (Js.obj_set _ _ ∅)), <- (assoc_L (∪)). f_equal.
    unfold Js.obj_set. case_decide.
    + by rewrite (left_id_L ∅ (∪)).
    + by rewrite <- insert_union_l, (left_id_L ∅ (∪)).
Qed.

Lemma getManifestFailures_app (mv : ManifestValues) (checks1 checks2 : list Check) :
  getManifestFailures (withAllChecks mv (checks1 ++ checks2))
  = getManifestFailures (withAllChecks mv checks1)
    ++ getManifestFailures (withAllChecks mv checks2).
Proof.
  unfold getManifestFailures, withAllChecks. cbn [allChecks].
  by rewrite List.filter_app, List.map_app.
Qed.

Lemma withAllChecks_allChecks (mv : ManifestValues) :
  withAllChecks mv (allChecks mv) = mv.
Proof. by destruct mv. Qed.

(** The check results at the id of a check whose id no later check carries. *)
Lemma getManifestChecks_last_occurrence (mv : ManifestValues)
      (before after : list Check) (check : Check) :
  allChecks mv = before ++ check :: after →
  id check ∉ id <$> after →
  id check ≠ Js.proto_key →
  getManifestChecks mv !! id check = Some (passing check).
Proof.
  intros Hall Hlater Hproto.
  rewrite getManifestChecks_lookup, Hall. unfold checksWithId.
  rewrite decide_False by done.
  rewrite filter_app, filter_cons_True by done.
  destruct (filter (λ c, id c = id check) after) as [|c' rest] eqn:Hf.
  - by rewrite last_snoc.
  - assert (c' ∈ filter (λ c, id c = id check) after) as Hin
      by (rewrite Hf; left).
    apply list_elem_of_filter in Hin as [Hid Hin].
    exfalso. apply Hlater. rewrite <- Hid. by apply list_elem_of_fmap_2.
Qed.

Lemma bannerCheckIds_not_proto (k : string) :
  k ∈ bannerCheckIds → k ≠ Js.proto_key.
Proof.
  intros Hin ->. apply includes_elem_of in Hin. discriminate Hin.
Qed.

Lemma auditFailures_nil_iff (mv : ManifestValues) :
  auditFailures mv = []
  ↔ (∀ check, check ∈ allChecks mv → id check ∈ bannerCheckIds →
              passing check = true)
    ∧ isParseFailure mv = false.
Proof.
  unfold auditFailures. split.
  - intros Hnil. destruct (isParseFailure mv).
    + by destruct (getManifestFailures mv).
    + split; [|done]. intros c Hin Hreq.
      apply (proj1 (getManifestFailures_nil_iff mv) Hnil c Hin).
      by apply bannerCheckIds_RequiredCheckSet.
  - intros [Hall ->]. apply getManifestFailures_nil_iff.
    intros c Hin Hreq. apply Hall; [done|].
    by apply bannerCheckIds_RequiredCheckSet.
Qed.

(** The audit passes exactly when every check of the checklist whose id is in
    [bannerCheckIds] passes and the checklist is no parse failure: a failing
    banner check or a parse failure is what makes it fail, and nothing else
    does. *)
Theorem audit_passes_iff (mv : ManifestValues) :
  rawValue (auditProduct mv) = true
  ↔ (∀ check, check ∈ allChecks mv → id check ∈ bannerCheckIds →
              passing check = true)
    ∧ isParseFailure mv = false.
Proof. by rewrite rawValue_true_iff, auditFailures_nil_iff. Qed.

(** A failing check of the checklist whose id is in [bannerCheckIds] is
    reported: its failureText stands in the result of [getManifestFailures]
    between the failures of the checks before it and those of the checks
    after it, and the audit fails with an explanation. *)
Theorem failing_banner_check_is_reported (mv : ManifestValues)
        (before after : list Check) (check : Check) :
  allChecks mv = before ++ check :: after →
  id check ∈ bannerCheckIds →
  passing check = false →
  getManifestFailures mv
  = getManifestFailures (withAllChecks mv before)
    ++ failureText check :: getManifestFailures (withAllChecks mv after)
  ∧ rawValue (auditProduct mv) = false
  ∧ is_Some (explanation (auditProduct mv)).
Proof.
  intros Hall Hreq Hfail.
  assert (getManifestFailures mv
          = getManifestFailures (withAllChecks mv before)
            ++ failureText check :: getManifestFailures (withAllChecks mv after))
    as Hfailures.
  { rewrite <- (withAllChecks_allChecks mv) at 1. rewrite Hall.
    rewrite getManifestFailures_app. f_equal.
    unfold getManifestFailures, withAllChecks. cbn [allChecks List.filter].
    apply includes_elem_of in Hreq. by rewrite Hreq, Hfail. }
  assert (rawValue (auditProduct mv) = false) as Hraw.
  { destruct (rawValue (auditProduct mv)) eqn:Hraw; [|done].
    apply rawValue_true_iff, auditFailures_nil_iff in Hraw as [Hpass _].
    rewrite (Hpass check) in Hfail; [done| |done].
    rewrite Hall. apply elem_of_app. right. left. }
  split; [done|]. split; [done|].
  unfold auditProduct in *.
  destruct (0 <? length (auditFailures mv)); [by eexists | done].
Qed.

Lemma failing_banner_check_is_reported_witness :
  allChecks scenarioB
  = [passingCheck "hasName"]
    ++ (mkCheck "hasShortName" false "Manifest does not contain a 'short_name' field")
    :: [passingCheck "hasStartUrl"; passingCheck "hasPWADisplayValue";
        passingCheck "hasIconsAtLeast192px"]
  ∧ "hasShortName" ∈ bannerCheckIds
  ∧ getManifestFailures scenarioB
    = ["Manifest does not contain a 'short_name' field"]
  ∧ rawValue (auditProduct scenarioB) = false.
Proof.
  assert ("hasShortName" ∈ bannerCheckIds) as Hreq
    by (by apply includes_elem_of).
  destruct (failing_banner_check_is_reported scenarioB
              [passingCheck "hasName"]
              [passingCheck "hasStartUrl"; passingCheck "hasPWADisplayValue";
               passingCheck "hasIconsAtLeast192px"]
              (mkCheck "hasShortName" false
                 "Manifest does not contain a 'short_name' field")
              eq_refl Hreq eq_refl) as (Hfailures & Hraw & _).
  split; [reflexivity|]. split; [exact Hreq|].
  split; [rewrite Hfailures; reflexivity | exact Hraw].
Defined.

(** Two checklists run one after the other: the failures of the concatenation
    are the failures of the first followed by those of the second, and its
    check results are those of the second, completed by those of the first
    for the ids that the second does not carry. Hence more checks never take a
    failure message away. *)
Theorem audit_parts_of_concatenation (mv : ManifestValues)
        (checks1 checks2 : list Check) :
  getManifestFailures (withAllChecks mv (checks1 ++ checks2))
  = getManifestFailures (withAllChecks mv checks1)
    ++ getManifestFailures (withAllChecks mv checks2)
  ∧ getManifestChecks (withAllChecks mv (checks1 ++ checks2))
    = getManifestChecks (withAllChecks mv checks2)
      ∪ getManifestChecks (withAllChecks mv checks1)
  ∧ (rawValue (auditProduct (withAllChecks mv checks1)) = false →
     rawValue (auditProduct (withAllChecks mv (checks1 ++ checks2))) = false).
Proof.
  split; [apply getManifestFailures_app|]. split.
  - rewrite !getManifestChecks_recordChecks. cbn [allChecks withAllChecks].
    unfold recordChecks at 1. rewrite fold_left_app.
    apply (recordChecks_union checks2).
  - intros Hfail.
    destruct (rawValue (auditProduct (withAllChecks mv (checks1 ++ checks2))))
      eqn:Hraw; [|done].
    apply rawValue_true_iff, auditFailures_nil_iff in Hraw as [Hpass Hparse].
    assert (rawValue (auditProduct (withAllChecks mv checks1)) = true) as Hok.
    { apply rawValue_true_iff, auditFailures_nil_iff. split; [|done].
      intros c Hin. apply Hpass. cbn [allChecks withAllChecks] in *.
      apply elem_of_app. by left. }
    congruence.
Qed.



(** With distinct ids, every check of the checklist is recorded in the check
    results with its own passing value (but for the id ["__proto__"]). *)
Lemma getManifestChecks_NoDup (mv : ManifestValues) (check : Check) :
  NoDup (id <$> allChecks mv) →
  check ∈ allChecks mv →
  id check ≠ Js.proto_key →
  getManifestChecks mv !! id check = Some (passing check).
Proof.
  intros Hnodup Hin Hproto.
  apply list_elem_of_split in Hin as (before & after & Hall).
  apply (getManifestChecks_last_occurrence mv before after); [done| |done].
  rewrite Hall, fmap_app, fmap_cons in Hnodup.
  apply NoDup_app in Hnodup as (_ & _ & Hnodup).
  by apply NoDup_cons in Hnodup as [? _].
Qed.

(** When the ids of the checklist are distinct, the verdict can be read off
    the check results: the audit passes exactly when no id of [bannerCheckIds]
    is recorded as [false] and the checklist is no parse failure. That the
    audit passes only then holds for every checklist. *)
Theorem verdict_from_check_results (mv : ManifestValues) :
  (rawValue (auditProduct mv) = true →
   (∀ k, k ∈ bannerCheckIds → getManifestChecks mv !! k ≠ Some false)
   ∧ isParseFailure mv = false)
  ∧ (NoDup (id <$> allChecks mv) →
     (∀ k, k ∈ bannerCheckIds → getManifestChecks mv !! k ≠ Some false) →
     isParseFailure mv = false →
     rawValue (auditProduct mv) = true).
Proof.
  split.
  - intros Hraw.
    apply rawValue_true_iff, auditFailures_nil_iff in Hraw as [Hpass Hparse].
    split; [|done]. intros k Hreq Hfalse.
    rewrite getManifestChecks_lookup in Hfalse.
    case_decide; [done|].
    destruct (last (checksWithId k (allChecks mv))) as [c|] eqn:Hlast; [|done].
    apply last_checksWithId_elem_of in Hlast as [<- Hin].
    injection Hfalse as Hfalse. rewrite (Hpass c Hin Hreq) in Hfalse. done.
  - intros Hnodup Hchecks Hparse.
    apply rawValue_true_iff, auditFailures_nil_iff. split; [|done].
    intros c Hin Hreq. destruct (passing c) eqn:Hp; [done|].
    exfalso. apply (Hchecks (id c) Hreq).
    rewrite <- Hp. apply getManifestChecks_NoDup; [done..|].
    by apply bannerCheckIds_not_proto.
Qed.

(** [List.filter] on a permutation. *)
Lemma filter_Permutation_bool {A : Type} (f : A → bool) (l1 l2 : list A) :
  l1 ≡ₚ l2 → List.filter f l1 ≡ₚ List.filter f l2.
Proof.
  induction 1 as [|x l1 l2 _ IH|x y l|l1 l2 l3 _ IH1 _ IH2]; cbn [List.filter].
  - done.
  - destruct (f x); [by constructor | done].
  - destruct (f x), (f y); try done. apply perm_swap.
  - by etrans.
Qed.

(** With distinct ids, at most one check of the checklist carries an id. *)
Lemma checksWithId_NoDup (k : string) (checks : list Check) :
  NoDup (id <$> checks) → length (checksWithId k checks) ≤ 1.
Proof.
  unfold checksWithId. induction checks as [|c checks IH]; intros Hnodup.
  - simpl. lia.
  - rewrite fmap_cons in Hnodup. apply NoDup_cons in Hnodup as [Hc Hnodup].
    destruct (decide (id c = k)) as [Hk|Hk].
    + rewrite filter_cons_True by done.
      destruct (filter (λ check, id check = k) checks) as [|c' rest] eqn:Hf;
        [simpl; lia|].
      assert (c' ∈ filter (λ check, id check = k) checks) as Hin
        by (rewrite Hf; left).
      apply list_elem_of_filter in Hin as [Hid Hin].
      exfalso. apply Hc. rewrite Hk, <- Hid. by apply list_elem_of_fmap_2.
    + rewrite filter_cons_False by done. by apply IH.
Qed.

(** The order of the checks matters for the order of the messages, and for
    the check results when ids repeat, and for nothing else: on a permutation
    of the checklist the failures are a permutation of the failures, the
    verdict is the same and, when the ids are distinct, so are the check
    results. *)
Theorem audit_of_permuted_checklist (mv : ManifestValues) (checks' : list Check) :
  allChecks mv ≡ₚ checks' →
  getManifestFailures mv ≡ₚ getManifestFailures (withAllChecks mv checks')
  ∧ auditFailures mv ≡ₚ auditFailures (withAllChecks mv checks')
  ∧ rawValue (auditProduct mv) = rawValue (auditProduct (withAllChecks mv checks'))
  ∧ (NoDup (id <$> allChecks mv) →
     getManifestChecks mv = getManifestChecks (withAllChecks mv checks')).
Proof.
  intros Hperm.
  assert (getManifestFailures mv
          ≡ₚ getManifestFailures (withAllChecks mv checks')) as Hfailures.
  { unfold getManifestFailures. cbn [allChecks withAllChecks].
    apply Permutation_map. by apply filter_Permutation_bool. }
  assert (auditFailures mv ≡ₚ auditFailures (withAllChecks mv checks'))
    as Haudit.
  { unfold auditFailures. cbn [isParseFailure parseFailureReason withAllChecks].
    destruct (isParseFailure mv); [|done]. by rewrite Hfailures. }
  split; [done|]. split; [done|]. split.
  - rewrite !rawValue_auditProduct. by rewrite (Permutation_length Haudit).
  - intros Hnodup. apply map_eq. intros k.
    rewrite !getManifestChecks_lookup. case_decide; [done|].
    cbn [allChecks withAllChecks]. f_equal. f_equal.
    assert (checksWithId k (allChecks mv) ≡ₚ checksWithId k checks') as Hk
      by (unfold checksWithId; by rewrite Hperm).
    pose proof (checksWithId_NoDup k (allChecks mv) Hnodup) as Hlen.
    destruct (checksWithId k (allChecks mv)) as [|c [|c2 rest]];
      [| |simpl in Hlen; lia].
    + by apply Permutation_nil_l in Hk as ->.
    + by apply Permutation_singleton_l in Hk as <-.
Qed.

Lemma audit_of_permuted_checklist_witness :
  allChecks reversedChecklist
  ≡ₚ [ mkCheck "hasName" false "no name";
       mkCheck "hasThemeColor" false "no theme color";
       mkCheck "hasIconsAtLeast192px" false "no icon" ]
  ∧ getManifestFailures reversedChecklist ≡ₚ ["no name"; "no icon"]
  ∧ rawValue (auditProduct reversedChecklist) = false.
Proof.
  assert (allChecks reversedChecklist
          ≡ₚ [ mkCheck "hasName" false "no name";
               mkCheck "hasThemeColor" false "no theme color";
               mkCheck "hasIconsAtLeast192px" false "no icon" ]) as Hperm.
  { cbn. etrans; [apply perm_swap|]. etrans; [apply perm_skip, perm_swap|].
    apply perm_swap. }
  destruct (audit_of_permuted_checklist reversedChecklist _ Hperm)
    as (Hfailures & _ & Hraw & _).
  split; [exact Hperm|]. split; [exact Hfailures|].
  rewrite Hraw. reflexivity.
Defined.

Lemma verdict_from_check_results_witness :
  NoDup (id <$> allChecks scenarioA)
  ∧ (∀ k, k ∈ bannerCheckIds → getManifestChecks scenarioA !! k ≠ Some false)
  ∧ isParseFailure scenarioA = false
  ∧ rawValue (auditProduct scenarioA) = true.
Proof.
  assert (NoDup (id <$> allChecks scenarioA)) as Hnodup
    by (apply (bool_decide_unpack _); vm_compute; exact I).
  assert (∀ k, k ∈ bannerCheckIds →
               getManifestChecks scenarioA !! k ≠ Some false) as Hchecks.
  { intros k Hk. unfold bannerCheckIds in Hk.
    repeat (apply elem_of_cons in Hk as [-> | Hk]; [discriminate|]).
    inversion Hk. }
  split; [exact Hnodup|]. split; [exact Hchecks|]. split; [reflexivity|].
  apply (proj2 (verdict_from_check_results scenarioA) Hnodup Hchecks).
  reflexivity.
Defined.

Lemma getManifestFailures_sameForAudit (mv1 mv2 : ManifestValues) :
  Forall2 sameForAudit (allChecks mv1) (allChecks mv2) →
  getManifestFailures mv1 = getManifestFailures mv2.
Proof.
  unfold getManifestFailures.
  induction 1 as [|c1 c2 l1 l2 (Hid & Hpass & Htext) _ IH]; [done|].
  cbn [List.filter]. rewrite <- Hid, <- Hpass.
  destruct (Js.includes bannerCheckIds (id c1) && negb (passing c1)) eqn:Hc;
    [|done].
  cbn [List.map]. by rewrite IH, Htext.
Qed.

Lemma recordChecks_sameForAudit (checks1 checks2 : list Check)
      (start : gmap string bool) :
  Forall2 sameForAudit checks1 checks2 →
  recordChecks checks1 start = recordChecks checks2 start.
Proof.
  unfold recordChecks. intros Hsame. revert start.
  induction Hsame as [|c1 c2 l1 l2 (Hid & Hpass & _) _ IH]; intros start;
    [done|].
  cbn [fold_left]. by rewrite Hid, Hpass, IH.
Qed.

(** What the audit reads of a checklist: the id and the passing of every
    check, the failureText of the failing banner checks, [isParseFailure], and
    [parseFailureReason] when [isParseFailure] is set. Two checklists that
    agree on these get the same product; so the failureText of a passing
    check, or of a check that is no banner check, never shows. *)
Theorem audit_reads_only (mv1 mv2 : ManifestValues) :
  Forall2 sameForAudit (allChecks mv1) (allChecks mv2) →
  isParseFailure mv1 = isParseFailure mv2 →
  (isParseFailure mv1 = true → parseFailureReason mv1 = parseFailureReason mv2) →
  auditProduct mv1 = auditProduct mv2.
Proof.
  intros Hchecks Hparse Hreason.
  assert (auditFailures mv1 = auditFailures mv2) as Hfailures.
  { unfold auditFailures.
    rewrite <- Hparse, <- (getManifestFailures_sameForAudit mv1 mv2 Hchecks).
    destruct (isParseFailure mv1); [|done]. by rewrite Hreason. }
  assert (getManifestChecks mv1 = getManifestChecks mv2) as Hresults.
  { rewrite !getManifestChecks_recordChecks.
    by apply recordChecks_sameForAudit. }
  unfold auditProduct. by rewrite Hfailures, Hresults.
Qed.

Lemma audit_reads_only_witness :
  Forall2 sameForAudit (allChecks scenarioB) (allChecks scenarioB')
  ∧ isParseFailure scenarioB = isParseFailure scenarioB'
  ∧ parseFailureReason scenarioB ≠ parseFailureReason scenarioB'
  ∧ auditProduct scenarioB = auditProduct scenarioB'.
Proof.
  assert (Forall2 sameForAudit (allChecks scenarioB) (allChecks scenarioB'))
    as Hchecks.
  { cbn. repeat constructor; cbn; discriminate. }
  split; [exact Hchecks|]. split; [reflexivity|]. split; [discriminate|].
  apply (audit_reads_only scenarioB scenarioB' Hchecks eq_refl).
  discriminate.
Defined.


Lemma string_app_assoc (s1 s2 s3 : string) :
  (s1 +:+ s2) +:+ s3 = s1 +:+ s2 +:+ s3.
Proof.
  induction s1 as [|a s1 IH]; [done|].
  change (String a ((s1 +:+ s2) +:+ s3) = String a (s1 +:+ s2 +:+ s3)).
  by rewrite IH.
Qed.

(** [join] with one more element at the end: the separator comes before the
    element unless the element is alone. *)
Lemma join_snoc (sep : string) (arr : list string) (x : string) :
  Js.join sep (arr ++ [x])
  = match arr with
    | [] => x
    | _ :: _ => Js.join sep arr +:+ sep +:+ x
    end.
Proof.
  induction arr as [|y arr IH]; [done|].
  change ((y :: arr) ++ [x]) with (y :: (arr ++ [x])).
  destruct arr as [|z arr]; [done|].
  change (y +:+ sep +:+ Js.join sep ((z :: arr) ++ [x])
          = (y +:+ sep +:+ Js.join sep (z :: arr)) +:+ sep +:+ x).
  by rewrite IH, !string_app_assoc.
Qed.

(** The explanation of a parse failure ends with the parse failure reason and
    a full stop; the reason follows the failures of the banner checks and the
    separator when there are such failures, and ["Failures: "] directly when
    there are none. *)
Theorem explanation_of_parse_failure (mv : ManifestValues) :
  isParseFailure mv = true →
  explanation (auditProduct mv)
  = Some ("Failures: "
          +:+ match getManifestFailures mv with
              | [] => parseFailureReason mv
              | _ :: _ =>
                  Js.join ("," +:+ Js.newline) (getManifestFailures mv)
                  +:+ ("," +:+ Js.newline) +:+ parseFailureReason mv
              end
          +:+ ".").
Proof.
  intros Hparse. unfold auditProduct, auditFailures. rewrite Hparse.
  rewrite join_snoc, length_app. cbn [length].
  destruct (0 <? length (getManifestFailures mv) + 1) eqn:Hlen.
  - done.
  - apply Nat.ltb_ge in Hlen. lia.
Qed.

Lemma explanation_of_parse_failure_witness :
  isParseFailure scenarioC = true
  ∧ explanation (auditProduct scenarioC)
    = Some "Failures: Failed to fetch manifest.".
Proof.
  split; [reflexivity|].
  rewrite (explanation_of_parse_failure scenarioC eq_refl). reflexivity.
Defined.


